(** * CSS selector builder of [src/05-objects-tasks.js]

    A shallow embedding of the class [BuilderHelper] and of the facade
    object [cssSelectorBuilder], followed by the properties of the
    specification that concern them.

    JavaScript objects are mutated in place; here every method is a
    computation in a state-and-exception monad over the object it is
    called on ([this]).  A method that ends in [return this] returns
    [()] : the object it returns is the state that is threaded. *)

From stdpp Require Import gmap strings list.
From Stdlib Require Import Sorted.

Local Open Scope Z_scope.

(** ** JavaScript values and completions *)

(** [new Error(message)] *)
Inductive JsError : Type :=
  | Error (message : string).

Definition message (e : JsError) : string :=
  match e with Error m => m end.

(** A call either returns normally or throws. *)
Inductive completion (A : Type) : Type :=
  | Normal (a : A)
  | Throw (e : JsError).
Arguments Normal {A} a.
Arguments Throw {A} e.

(** A computation on an object of type [S] : the object after the call and
    the completion of the call. *)
Definition Js (S A : Type) : Type := S → S * completion A.

Global Instance js_ret {S} : MRet (Js S) := λ A a s, (s, Normal a).

Global Instance js_bind {S} : MBind (Js S) := λ A B f m s,
  match m s with
  | (s', Normal a) => f a s'
  | (s', Throw e) => (s', Throw e)
  end.

Definition js_throw {S A} (e : JsError) : Js S A := λ s, (s, Throw e).
Definition js_get {S} : Js S S := λ s, (s, Normal s).
Definition js_modify {S} (f : S → S) : Js S () := λ s, (f s, Normal ()).

(** [undefined] is [None] throughout. *)

(** [arr.includes(x)] *)
Definition includes (x : string) (arr : list string) : bool :=
  bool_decide (x ∈ arr).

(** [arr.at(-1)] : the last element, [undefined] on an empty array. *)
Definition at_last (arr : list string) : option string := last arr.

(** The key of [obj[v]] : [undefined] is converted to the string
    ["undefined"]. *)
Definition to_property_key (v : option string) : string :=
  match v with
  | Some s => s
  | None => "undefined"
  end.

(** [obj[v]] for an object used as a map from names to numbers : the
    lookup among the own keys of the object literal.  The names an object
    literal inherits ([Object_prototype_names] below) are outside this
    model; a statement that looks up a name other than a key of [order]
    or ["undefined"] excludes them. *)
Definition get_property (obj : gmap string Z) (v : option string) : option Z :=
  obj !! to_property_key v.

(** [a > b] on operands that are numbers or [undefined] : [undefined]
    converts to [NaN], and every comparison with [NaN] is false.  (Two
    operands that are neither, which JavaScript compares as strings, do
    not occur : one operand is always the rank of a key of [order] or
    [undefined].) *)
Definition js_gt (a b : option Z) : bool :=
  match a, b with
  | Some x, Some y => bool_decide (x > y)
  | _, _ => false
  end.

(** A template literal converts [undefined] to the text ["undefined"]. *)
Definition to_text (v : option string) : string :=
  match v with
  | Some s => s
  | None => "undefined"
  end.

(** ** class BuilderHelper *)

Record BuilderHelper : Type := mkBuilderHelper {
  res : string;
  usedSelectors : list string;
  uniqueSelectors : list string;
  order : gmap string Z;
  firstErr : string;
  secondErr : string
}.

(** [constructor()] *)
Definition new_BuilderHelper : BuilderHelper :=
  {| res := "";
     usedSelectors := [];
     uniqueSelectors := ["element"; "id"; "pseudoElement"];
     order := <["element" := 0]> (<["id" := 1]> (<["class" := 2]>
              (<["attribute" := 3]> (<["pseudoClass" := 4]>
              (<["pseudoElement" := 5]> ∅)))));
     firstErr := "Element, id and pseudo-element should not occur more then one time inside the selector";
     secondErr := "Selector parts should be arranged in the following order: element, id, class, attribute, pseudo-class, pseudo-element" |}.

(** [this.res += text] *)
Definition append_res (text : string) (this : BuilderHelper) : BuilderHelper :=
  {| res := res this +:+ text;
     usedSelectors := usedSelectors this;
     uniqueSelectors := uniqueSelectors this;
     order := order this;
     firstErr := firstErr this;
     secondErr := secondErr this |}.

(** [this.usedSelectors.push(selector)] *)
Definition push_usedSelectors (selector : string) (this : BuilderHelper)
  : BuilderHelper :=
  {| res := res this;
     usedSelectors := usedSelectors this ++ [selector];
     uniqueSelectors := uniqueSelectors this;
     order := order this;
     firstErr := firstErr this;
     secondErr := secondErr this |}.

Module BuilderHelper.

Definition stringify : Js BuilderHelper string :=
  this ← js_get;
  mret (res this).

Definition errorHandler (selector : string) : Js BuilderHelper () :=
  this ← js_get;
  if includes selector (usedSelectors this)
     && includes selector (uniqueSelectors this)
  then js_throw (Error (firstErr this))
  else
    if js_gt (get_property (order this) (at_last (usedSelectors this)))
             (get_property (order this) (Some selector))
    then js_throw (Error (secondErr this))
    else js_modify (push_usedSelectors selector).

Definition element (value : string) : Js BuilderHelper () :=
  errorHandler "element" ;;
  js_modify (append_res value).

Definition id (value : string) : Js BuilderHelper () :=
  errorHandler "id" ;;
  js_modify (append_res ("#" +:+ value)).

Definition class (value : string) : Js BuilderHelper () :=
  errorHandler "class" ;;
  js_modify (append_res ("." +:+ value)).

Definition attr (value : string) : Js BuilderHelper () :=
  errorHandler "attribute" ;;
  js_modify (append_res ("[" +:+ value +:+ "]")).

Definition pseudoClass (value : string) : Js BuilderHelper () :=
  errorHandler "pseudoClass" ;;
  js_modify (append_res (":" +:+ value)).

Definition pseudoElement (value : string) : Js BuilderHelper () :=
  errorHandler "pseudoElement" ;;
  js_modify (append_res ("::" +:+ value)).

End BuilderHelper.

(** ** Fragment kinds

    The six fragment methods differ in the name they hand to
    [errorHandler] and in the text they append. *)

Inductive Kind : Type :=
  | KElement | KId | KClass | KAttribute | KPseudoClass | KPseudoElement.

Global Instance Kind_eq_dec : EqDecision Kind.
Proof. solve_decision. Defined.

(** The name each method passes to [errorHandler]. *)
Definition tag (k : Kind) : string :=
  match k with
  | KElement => "element"
  | KId => "id"
  | KClass => "class"
  | KAttribute => "attribute"
  | KPseudoClass => "pseudoClass"
  | KPseudoElement => "pseudoElement"
  end.

(** The fragment method of kind [k]. *)
Definition fragment (k : Kind) (value : string) : Js BuilderHelper () :=
  match k with
  | KElement => BuilderHelper.element value
  | KId => BuilderHelper.id value
  | KClass => BuilderHelper.class value
  | KAttribute => BuilderHelper.attr value
  | KPseudoClass => BuilderHelper.pseudoClass value
  | KPseudoElement => BuilderHelper.pseudoElement value
  end.

(** A chain of calls [.k1(v1).k2(v2)...] on one object. *)
Fixpoint chain (calls : list (Kind * string)) : Js BuilderHelper () :=
  match calls with
  | [] => mret ()
  | (k, value) :: calls' => fragment k value ;; chain calls'
  end.

(** ** The vocabulary of the specification *)

(** RANK *)
Definition RANK (k : Kind) : Z :=
  match k with
  | KElement => 0
  | KId => 1
  | KClass => 2
  | KAttribute => 3
  | KPseudoClass => 4
  | KPseudoElement => 5
  end.

(** SINGLETON_KINDS *)
Definition SINGLETON_KINDS : list Kind := [KElement; KId; KPseudoElement].

Definition is_singleton (k : Kind) : bool := bool_decide (k ∈ SINGLETON_KINDS).

(** The rendered form of a fragment. *)
Definition rendered (k : Kind) (value : string) : string :=
  match k with
  | KElement => value
  | KId => "#" +:+ value
  | KClass => "." +:+ value
  | KAttribute => "[" +:+ value +:+ "]"
  | KPseudoClass => ":" +:+ value
  | KPseudoElement => "::" +:+ value
  end.

(** Concatenation with no separator. *)
Definition concat_all (l : list string) : string := foldr String.append "" l.

Definition rendered_calls (calls : list (Kind * string)) : string :=
  concat_all ((λ c, rendered c.1 c.2) <$> calls).

(** Ranks non-decreasing along the sequence. *)
Fixpoint ranks_nondecreasing (ks : list Kind) : bool :=
  match ks with
  | k1 :: ks' =>
      match ks' with
      | k2 :: _ => bool_decide (RANK k1 ≤ RANK k2) && ranks_nondecreasing ks'
      | [] => true
      end
  | [] => true
  end.

Definition occurrences (k : Kind) (ks : list Kind) : nat :=
  length (filter (λ k', k' = k) ks).

(** Each singleton kind at most once. *)
Definition singletons_once (ks : list Kind) : bool :=
  forallb (λ k, bool_decide (occurrences k ks ≤ 1)%nat) SINGLETON_KINDS.

(** The validation rules on a sequence of kinds. *)
Definition valid_kinds (ks : list Kind) : bool :=
  ranks_nondecreasing ks && singletons_once ks.

(** The two messages as the specification words them. *)
Definition spec_DuplicateSingleton_message : string :=
  "element, id and pseudo-element should not occur more than one time inside the selector".
Definition spec_OrderViolation_message : string :=
  "selector parts should be arranged in the following order: element, id, class, attribute, pseudo-class, pseudo-element".

(** The errors by the place that throws them : the first [throw] of
    [errorHandler] is the duplicate-singleton error, the second the
    order-violation error. *)
Definition DuplicateSingletonError (this : BuilderHelper) : JsError :=
  Error (firstErr this).
Definition OrderViolationError (this : BuilderHelper) : JsError :=
  Error (secondErr this).

(** ** The object cssSelectorBuilder *)

(** The object literal has one data property, [res], which is absent until
    [combine] assigns it (the field is named apart from the one of
    [BuilderHelper]). *)
Record Facade : Type := mkFacade {
  facade_res : option string
}.

(** The object as the module creates it. *)
Definition cssSelectorBuilder : Facade := {| facade_res := None |}.

(** A reference to a selector object : an instance of [BuilderHelper],
    given with its fields at the time of use, or the object
    [cssSelectorBuilder] itself. *)
Inductive Selector : Type :=
  | Instance (b : BuilderHelper)
  | TheFacade.

(** [new BuilderHelper().method(...)] : the fresh instance, unless the
    method throws. *)
Definition on_new (m : Js BuilderHelper ()) : Js Facade Selector :=
  λ this,
    match m new_BuilderHelper with
    | (b, Normal _) => (this, Normal (Instance b))
    | (_, Throw e) => (this, Throw e)
    end.

Module cssSelectorBuilder.

Definition id (value : string) : Js Facade Selector :=
  on_new (BuilderHelper.id value).
Definition attr (value : string) : Js Facade Selector :=
  on_new (BuilderHelper.attr value).
Definition class (value : string) : Js Facade Selector :=
  on_new (BuilderHelper.class value).
Definition element (value : string) : Js Facade Selector :=
  on_new (BuilderHelper.element value).
Definition pseudoClass (value : string) : Js Facade Selector :=
  on_new (BuilderHelper.pseudoClass value).
Definition pseudoElement (value : string) : Js Facade Selector :=
  on_new (BuilderHelper.pseudoElement value).

(** [selector.res] *)
Definition read_res (selector : Selector) : Js Facade (option string) :=
  this ← js_get;
  mret (match selector with
        | Instance b => Some (res b)
        | TheFacade => facade_res this
        end).

Definition combine (selector1 : Selector) (combinator : string)
    (selector2 : Selector) : Js Facade Selector :=
  r1 ← read_res selector1;
  r2 ← read_res selector2;
  js_modify (λ _, {| facade_res :=
      Some (to_text r1 +:+ " " +:+ combinator +:+ " " +:+ to_text r2) |}) ;;
  mret TheFacade.

Definition stringify : Js Facade (option string) :=
  this ← js_get;
  mret (facade_res this).

End cssSelectorBuilder.

(** [selector.stringify()] : the method of the object referred to. *)
Definition stringify_of (selector : Selector) : Js Facade (option string) :=
  match selector with
  | Instance b =>
      λ this, match BuilderHelper.stringify b with
              | (_, Normal s) => (this, Normal (Some s))
              | (_, Throw e) => (this, Throw e)
              end
  | TheFacade => cssSelectorBuilder.stringify
  end.

(** The facade method of kind [k]. *)
Definition facade_fragment (k : Kind) (value : string) : Js Facade Selector :=
  match k with
  | KElement => cssSelectorBuilder.element value
  | KId => cssSelectorBuilder.id value
  | KClass => cssSelectorBuilder.class value
  | KAttribute => cssSelectorBuilder.attr value
  | KPseudoClass => cssSelectorBuilder.pseudoClass value
  | KPseudoElement => cssSelectorBuilder.pseudoElement value
  end.

(** [selector.k(value)] : on an instance the method of [BuilderHelper],
    which returns the instance; on the facade its own method. *)
Definition invoke (k : Kind) (value : string) (selector : Selector)
  : Js Facade Selector :=
  match selector with
  | Instance b =>
      λ this, match fragment k value b with
              | (b', Normal _) => (this, Normal (Instance b'))
              | (_, Throw e) => (this, Throw e)
              end
  | TheFacade => facade_fragment k value
  end.

Fixpoint invoke_all (calls : list (Kind * string)) (selector : Selector)
  : Js Facade Selector :=
  match calls with
  | [] => mret selector
  | (k, value) :: calls' =>
      s ← invoke k value selector; invoke_all calls' s
  end.

(** Selector expressions as a caller writes them :
    [builder.k(v).k1(v1)...] and [builder.combine(e1, c, e2)].  The
    arguments of a call are evaluated from left to right. *)
Inductive sel_expr : Type :=
  | EChain (k : Kind) (value : string) (rest : list (Kind * string))
  | ECombine (e1 : sel_expr) (combinator : string) (e2 : sel_expr).

Fixpoint eval (e : sel_expr) : Js Facade Selector :=
  match e with
  | EChain k value rest =>
      s ← facade_fragment k value; invoke_all rest s
  | ECombine e1 combinator e2 =>
      s1 ← eval e1;
      s2 ← eval e2;
      cssSelectorBuilder.combine s1 combinator s2
  end.

(** The text an expression stands for : the fragments of a chain
    concatenated, the operands of [combine] joined by the combinator with
    one space on each side. *)
Fixpoint expr_text (e : sel_expr) : string :=
  match e with
  | EChain k value rest => rendered_calls ((k, value) :: rest)
  | ECombine e1 combinator e2 =>
      expr_text e1 +:+ " " +:+ combinator +:+ " " +:+ expr_text e2
  end.

(** ** Auxiliary notions *)

(** The names every object literal inherits from [Object.prototype] :
    for these [obj[name]] is a function or an object, not [undefined]. *)
Definition Object_prototype_names : list string :=
  ["constructor"; "__defineGetter__"; "__defineSetter__"; "hasOwnProperty";
   "__lookupGetter__"; "__lookupSetter__"; "isPrototypeOf";
   "propertyIsEnumerable"; "toString"; "valueOf"; "__proto__";
   "toLocaleString"].

(** The fields the constructor sets and no method assigns have the values
    the constructor gave them. *)
Definition class_consts (this : BuilderHelper) : Prop :=
  uniqueSelectors this = uniqueSelectors new_BuilderHelper
  ∧ order this = order new_BuilderHelper
  ∧ firstErr this = firstErr new_BuilderHelper
  ∧ secondErr this = secondErr new_BuilderHelper.

(** The second test of [errorHandler] for the method of kind [k] : the
    rank of the last selector used exceeds the rank of [k]. *)
Definition order_check (this : BuilderHelper) (k : Kind) : bool :=
  js_gt (get_property (order this) (at_last (usedSelectors this)))
        (Some (RANK k)).

(** The rank of the last kind of [ks], if there is one, does not exceed
    the rank of [k]. *)
Definition last_rank_ok (ks : list Kind) (k : Kind) : bool :=
  match last ks with
  | Some l => bool_decide (RANK l ≤ RANK k)
  | None => true
  end.

(** What holds of a builder after the fragments [calls] were appended. *)
Definition builder_inv (calls : list (Kind * string)) (this : BuilderHelper)
  : Prop :=
  class_consts this
  ∧ usedSelectors this = tag <$> calls.*1
  ∧ ranks_nondecreasing calls.*1 = true
  ∧ singletons_once calls.*1 = true
  ∧ res this = rendered_calls calls.

(** [n] successive calls of [stringify()], with their results. *)
Fixpoint stringify_times (n : nat) : Js BuilderHelper (list string) :=
  match n with
  | O => mret []
  | S n' =>
      s ← BuilderHelper.stringify;
      l ← stringify_times n';
      mret (s :: l)
  end.

(** The builders that calls of the methods produce from a new instance,
    with the fragments that were appended, in order.  A call that throws
    and a call of [stringify] append nothing. *)
Inductive reachable : list (Kind * string) → BuilderHelper → Prop :=
  | reachable_new :
      reachable [] new_BuilderHelper
  | reachable_fragment calls this k value this' :
      reachable calls this →
      fragment k value this = (this', Normal ()) →
      reachable (calls ++ [(k, value)]) this'
  | reachable_throw calls this k value this' e :
      reachable calls this →
      fragment k value this = (this', Throw e) →
      reachable calls this'
  | reachable_stringify calls this this' c :
      reachable calls this →
      BuilderHelper.stringify this = (this', c) →
      reachable calls this'.

(** Calls of the facade's fragment methods, their results dropped. *)
Fixpoint facade_calls (calls : list (Kind * string)) : Js Facade () :=
  match calls with
  | [] => mret ()
  | (k, value) :: calls' => facade_fragment k value ;; facade_calls calls'
  end.

(** [selector.res] as a template literal prints it. *)
Definition text_of (selector : Selector) (this : Facade) : string :=
  to_text (match selector with
           | Instance b => Some (res b)
           | TheFacade => facade_res this
           end).

Definition is_chain (e : sel_expr) : bool :=
  match e with
  | EChain _ _ _ => true
  | ECombine _ _ _ => false
  end.

(** No call of [combine] has a call of [combine] for both operands. *)
Fixpoint one_sided (e : sel_expr) : bool :=
  match e with
  | EChain _ _ _ => true
  | ECombine e1 _ e2 =>
      (is_chain e1 || is_chain e2) && one_sided e1 && one_sided e2
  end.

(** Every chain of the expression obeys the validation rules. *)
Fixpoint chains_valid (e : sel_expr) : bool :=
  match e with
  | EChain k _ rest => valid_kinds (k :: rest.*1)
  | ECombine e1 _ e2 => chains_valid e1 && chains_valid e2
  end.

(** The double quote, for the texts that contain one. *)
Definition dquote : string := String (Ascii.ascii_of_nat 34) EmptyString.

(** * Properties *)

(** ** Strings *)

Lemma append_nil_r (s : string) : s +:+ "" = s.
Proof.
  induction s as [|a s IH]; [reflexivity|].
  change (String a s +:+ "") with (String a (s +:+ "")). by rewrite IH.
Qed.

Lemma append_assoc (s1 s2 s3 : string) :
  (s1 +:+ s2) +:+ s3 = s1 +:+ (s2 +:+ s3).
Proof.
  induction s1 as [|a s1 IH]; [reflexivity|].
  change (String a ((s1 +:+ s2) +:+ s3) = String a (s1 +:+ (s2 +:+ s3))).
  by rewrite IH.
Qed.

Lemma concat_all_app (l1 l2 : list string) :
  concat_all (l1 ++ l2) = concat_all l1 +:+ concat_all l2.
Proof.
  induction l1 as [|x l1 IH]; [reflexivity|].
  change (x +:+ concat_all (l1 ++ l2) = (x +:+ concat_all l1) +:+ concat_all l2).
  by rewrite IH, append_assoc.
Qed.

Lemma rendered_calls_snoc calls k value :
  rendered_calls (calls ++ [(k, value)])
  = rendered_calls calls +:+ rendered k value.
Proof.
  unfold rendered_calls. rewrite fmap_app, concat_all_app.
  f_equal. apply append_nil_r.
Qed.

Lemma rendered_calls_cons calls k value :
  rendered_calls ((k, value) :: calls)
  = rendered k value +:+ rendered_calls calls.
Proof. reflexivity. Qed.

(** ** The fields the constructor sets and no method assigns *)

Lemma class_consts_new : class_consts new_BuilderHelper.
Proof. by repeat split. Qed.

Lemma class_consts_append_res text this :
  class_consts this → class_consts (append_res text this).
Proof. by intros (?&?&?&?). Qed.

Lemma class_consts_push selector this :
  class_consts this → class_consts (push_usedSelectors selector this).
Proof. by intros (?&?&?&?). Qed.

Lemma errors_differ this :
  class_consts this → DuplicateSingletonError this ≠ OrderViolationError this.
Proof.
  intros (_&_&H1&H2). unfold DuplicateSingletonError, OrderViolationError.
  rewrite H1, H2. discriminate.
Qed.

(** ** JavaScript helpers *)

Lemma includes_true x arr : includes x arr = true ↔ x ∈ arr.
Proof. unfold includes. apply bool_decide_eq_true. Qed.

Global Instance tag_inj : Inj (=) (=) tag.
Proof. intros [] [] H; (reflexivity || discriminate H). Qed.

Lemma includes_tag k ks :
  includes (tag k) (tag <$> ks) = bool_decide (k ∈ ks).
Proof.
  unfold includes. apply bool_decide_ext.
  split; [|apply list_elem_of_fmap_2].
  intros (k'&Heq&Hin)%list_elem_of_fmap. by rewrite (inj tag _ _ Heq).
Qed.

Lemma includes_unique k this :
  class_consts this →
  includes (tag k) (uniqueSelectors this) = is_singleton k.
Proof. intros (->&_). by destruct k. Qed.

Lemma order_tag k this :
  class_consts this → get_property (order this) (Some (tag k)) = Some (RANK k).
Proof. intros (_&->&_). by destruct k. Qed.

Lemma order_undefined this :
  class_consts this → get_property (order this) None = None.
Proof. by intros (_&->&_). Qed.

Lemma js_gt_undefined b : js_gt None b = false.
Proof. reflexivity. Qed.

Lemma js_gt_numbers x y : js_gt (Some x) (Some y) = bool_decide (x > y).
Proof. reflexivity. Qed.

(** ** One call of a fragment method *)

Lemma fragment_unfold k value this :
  fragment k value this =
  match BuilderHelper.errorHandler (tag k) this with
  | (this', Normal _) => (append_res (rendered k value) this', Normal ())
  | (this', Throw e) => (this', Throw e)
  end.
Proof. by destruct k. Qed.

Lemma errorHandler_unfold selector this :
  BuilderHelper.errorHandler selector this =
  if includes selector (usedSelectors this)
     && includes selector (uniqueSelectors this)
  then (this, Throw (DuplicateSingletonError this))
  else if js_gt (get_property (order this) (at_last (usedSelectors this)))
                (get_property (order this) (Some selector))
  then (this, Throw (OrderViolationError this))
  else (push_usedSelectors selector this, Normal ()).
Proof.
  unfold BuilderHelper.errorHandler, mbind, js_bind, js_get.
  by repeat case_match.
Qed.

Lemma fragment_step k value this :
  class_consts this →
  fragment k value this =
  if includes (tag k) (usedSelectors this) && is_singleton k
  then (this, Throw (DuplicateSingletonError this))
  else if order_check this k
  then (this, Throw (OrderViolationError this))
  else (append_res (rendered k value) (push_usedSelectors (tag k) this),
        Normal ()).
Proof.
  intros Hc. rewrite fragment_unfold, errorHandler_unfold.
  rewrite (includes_unique _ _ Hc), (order_tag _ _ Hc). unfold order_check.
  destruct (includes (tag k) (usedSelectors this) && is_singleton k);
    [reflexivity|].
  by destruct (js_gt _ _).
Qed.

Lemma order_check_last this pre l k :
  class_consts this → usedSelectors this = pre ++ [tag l] →
  order_check this k = bool_decide (RANK l > RANK k).
Proof.
  intros Hc Hu. unfold order_check, at_last. rewrite Hu, last_snoc.
  by rewrite (order_tag _ _ Hc).
Qed.

Lemma order_check_empty this k :
  class_consts this → usedSelectors this = [] → order_check this k = false.
Proof.
  intros Hc Hu. unfold order_check, at_last. rewrite Hu. simpl.
  by rewrite (order_undefined _ Hc).
Qed.

(** ** Duplicate singletons *)

(** C2 : on every builder, the method of a singleton kind (element, id,
    pseudo-element) whose name already occurs among the selectors used
    throws the duplicate-singleton error and nothing else, whatever the
    outcome of the order test would be : the test for duplicates comes
    first. *)
Theorem duplicate_singleton_raised this k value :
  class_consts this →
  k ∈ SINGLETON_KINDS →
  tag k ∈ usedSelectors this →
  fragment k value this = (this, Throw (DuplicateSingletonError this))
  ∧ (order_check this k = true →
     (fragment k value this).2 ≠ Throw (OrderViolationError this)).
Proof.
  intros Hc Hk Hin. rewrite (fragment_step _ _ _ Hc).
  assert (includes (tag k) (usedSelectors this) && is_singleton k = true)
    as ->.
  { apply andb_true_intro. split; [by apply includes_true|].
    by apply bool_decide_eq_true. }
  split; [reflexivity|]. intros _ Heq. apply (errors_differ this Hc).
  simpl in Heq. congruence.
Qed.

Lemma duplicate_singleton_raised_witness :
  let this := (chain [(KId, "x"); (KClass, "y")] new_BuilderHelper).1 in
  usedSelectors this = ["id"; "class"]
  ∧ order_check this KId = true
  ∧ fragment KId "z" this = (this, Throw (DuplicateSingletonError this)).
Proof.
  intros this. split; [reflexivity|]. split; [reflexivity|].
  apply (duplicate_singleton_raised this KId "z").
  - repeat split; reflexivity.
  - apply (bool_decide_unpack _). reflexivity.
  - apply (bool_decide_unpack _). reflexivity.
Defined.

(** ** Order violations *)

Lemma not_duplicate_false this k :
  ¬ (k ∈ SINGLETON_KINDS ∧ tag k ∈ usedSelectors this) →
  includes (tag k) (usedSelectors this) && is_singleton k = false.
Proof.
  intros Hn. apply not_true_is_false. intros [Hi Hs]%andb_true_iff.
  apply Hn. split; [by apply bool_decide_eq_true in Hs|].
  by apply includes_true.
Qed.

Lemma fragment_new k value :
  fragment k value new_BuilderHelper =
  (append_res (rendered k value)
     (push_usedSelectors (tag k) new_BuilderHelper), Normal ()).
Proof. by destruct k. Qed.

(** C3, as the code has it : on a builder whose last selector used is of
    kind [l], the method of kind [k] throws the order-violation error
    exactly when the rank of [l] exceeds the rank of [k] and the test for
    duplicate singletons, which comes first, does not fire.  When that
    test does not fire, an equal or a higher rank is accepted, and only
    the last selector used is compared : the earlier ones ([pre]) are
    arbitrary.  A first fragment on a new builder is always accepted. *)
Theorem order_violation_iff :
  (∀ this pre l k value,
     class_consts this →
     usedSelectors this = pre ++ [tag l] →
     ((fragment k value this).2 = Throw (OrderViolationError this)
      ↔ RANK l > RANK k
        ∧ ¬ (k ∈ SINGLETON_KINDS ∧ tag k ∈ usedSelectors this))
     ∧ (RANK l ≤ RANK k →
        ¬ (k ∈ SINGLETON_KINDS ∧ tag k ∈ usedSelectors this) →
        fragment k value this =
        (append_res (rendered k value) (push_usedSelectors (tag k) this),
         Normal ())))
  ∧ (∀ k value, (fragment k value new_BuilderHelper).2 = Normal ()).
Proof.
  split; [|intros k value; by rewrite fragment_new].
  intros this pre l k value Hc Hu.
  rewrite (fragment_step _ _ _ Hc), (order_check_last _ _ _ _ Hc Hu).
  split; [split|].
  - destruct (includes _ _ && is_singleton k) eqn:Hdup.
    { simpl. intros Heq. destruct (errors_differ this Hc). congruence. }
    case_bool_decide as Hr; [|discriminate]. intros _. split; [done|].
    intros [Hs Hi]. apply andb_false_iff in Hdup as [Hf|Hf].
    + apply includes_true in Hi. congruence.
    + apply (bool_decide_eq_true _) in Hs. unfold is_singleton in Hf.
      congruence.
  - intros [Hr Hn]. rewrite (not_duplicate_false _ _ Hn).
    by rewrite bool_decide_eq_true_2.
  - intros Hr Hn. rewrite (not_duplicate_false _ _ Hn).
    rewrite bool_decide_eq_false_2; [reflexivity|lia].
Qed.

Lemma order_violation_iff_witness :
  let this := (chain [(KId, "x"); (KClass, "y")] new_BuilderHelper).1 in
  ((fragment KElement "z" this).2 = Throw (OrderViolationError this)
   ↔ RANK KClass > RANK KElement
     ∧ ¬ (KElement ∈ SINGLETON_KINDS ∧ tag KElement ∈ usedSelectors this))
  ∧ (fragment KAttribute "z" this).2 = Normal ().
Proof.
  intros this.
  assert (class_consts this) as Hc by (repeat split; reflexivity).
  split.
  - apply (proj1 order_violation_iff this ["id"] KClass KElement "z" Hc).
    reflexivity.
  - rewrite (proj2 (proj1 order_violation_iff this ["id"] KClass KAttribute
                      "z" Hc eq_refl)); [reflexivity|unfold RANK; lia|].
    intros [_ Hin]. apply (bool_decide_eq_true_2 _) in Hin.
    vm_compute in Hin. discriminate Hin.
Defined.

(** The claim C3 as worded fails : after [id('x').class('y')] the rank of
    the last kind (class, 2) exceeds the rank of id (1), and [id('z')]
    does not throw the order-violation error but the duplicate-singleton
    one. *)
Lemma order_violation_masked_by_duplicate :
  let this := (chain [(KId, "x"); (KClass, "y")] new_BuilderHelper).1 in
  usedSelectors this = ["id"] ++ [tag KClass]
  ∧ RANK KClass > RANK KId
  ∧ (fragment KId "z" this).2 ≠ Throw (OrderViolationError this)
  ∧ (fragment KId "z" this).2 = Throw (DuplicateSingletonError this).
Proof.
  intros this. split; [reflexivity|]. split; [reflexivity|].
  split; [|reflexivity]. vm_compute. discriminate.
Qed.

(** ** No partial mutation *)

Lemma fragment_throw_same k value this this' e :
  fragment k value this = (this', Throw e) → this' = this.
Proof.
  rewrite fragment_unfold, errorHandler_unfold. intros H.
  destruct (includes _ _ && includes _ _); [congruence|].
  destruct (js_gt _ _); [congruence|discriminate H].
Qed.

(** C5 : when a fragment method throws, the object is what it was before
    the call, and so are its text and the selectors used. *)
Theorem failed_call_leaves_builder_unchanged k value this this' e :
  fragment k value this = (this', Throw e) →
  this' = this
  ∧ res this' = res this
  ∧ usedSelectors this' = usedSelectors this.
Proof. by intros ->%fragment_throw_same. Qed.

Lemma failed_call_leaves_builder_unchanged_witness :
  let this := (fragment KId "x" new_BuilderHelper).1 in
  res this = "#x" ∧ usedSelectors this = ["id"]
  ∧ res (fragment KId "y" this).1 = "#x"
  ∧ usedSelectors (fragment KId "y" this).1 = ["id"].
Proof.
  intros this. split; [reflexivity|]. split; [reflexivity|].
  destruct (failed_call_leaves_builder_unchanged KId "y" this
              (fragment KId "y" this).1 (DuplicateSingletonError this))
    as (_ & Hr & Hu); [reflexivity|].
  rewrite Hr, Hu. split; reflexivity.
Defined.

(** The same holds of [errorHandler] alone. *)
Lemma errorHandler_throw_unchanged selector this this' e :
  BuilderHelper.errorHandler selector this = (this', Throw e) → this' = this.
Proof.
  rewrite errorHandler_unfold. intros H.
  destruct (includes _ _ && includes _ _); [congruence|].
  destruct (js_gt _ _); [congruence|discriminate H].
Qed.

(** ** The messages *)

(** C7, as the code has it : the error thrown when a singleton kind is
    applied again carries exactly the message that begins with a capital
    letter and reads "more then one time", and the error thrown when the
    rank of the last kind exceeds the rank of the kind applied (and the
    test for duplicates does not fire) carries exactly the message that
    begins with "Selector". *)
Theorem thrown_messages this k value :
  class_consts this →
  (k ∈ SINGLETON_KINDS →
   tag k ∈ usedSelectors this →
   (fragment k value this).2
   = Throw (Error "Element, id and pseudo-element should not occur more then one time inside the selector"))
  ∧ (∀ pre l,
       usedSelectors this = pre ++ [tag l] →
       RANK l > RANK k →
       ¬ (k ∈ SINGLETON_KINDS ∧ tag k ∈ usedSelectors this) →
       (fragment k value this).2
       = Throw (Error "Selector parts should be arranged in the following order: element, id, class, attribute, pseudo-class, pseudo-element")).
Proof.
  intros Hc. pose proof Hc as (_&_&H1&H2).
  rewrite (fragment_step _ _ _ Hc). split.
  - intros Hk Hin.
    assert (includes (tag k) (usedSelectors this) && is_singleton k = true)
      as ->.
    { apply andb_true_intro. split; [by apply includes_true|].
      by apply bool_decide_eq_true. }
    unfold DuplicateSingletonError. by rewrite H1.
  - intros pre l Hu Hr Hn.
    rewrite (not_duplicate_false _ _ Hn), (order_check_last _ _ _ _ Hc Hu).
    rewrite bool_decide_eq_true_2 by exact Hr.
    unfold OrderViolationError. by rewrite H2.
Qed.

Lemma thrown_messages_witness :
  let this1 := (fragment KId "x" new_BuilderHelper).1 in
  let this2 := (fragment KClass "x" new_BuilderHelper).1 in
  (fragment KId "y" this1).2
  = Throw (Error "Element, id and pseudo-element should not occur more then one time inside the selector")
  ∧ (fragment KId "y" this2).2
    = Throw (Error "Selector parts should be arranged in the following order: element, id, class, attribute, pseudo-class, pseudo-element").
Proof.
  intros this1 this2.
  assert (class_consts this1) as Hc1 by (repeat split; reflexivity).
  assert (class_consts this2) as Hc2 by (repeat split; reflexivity).
  split.
  - apply (proj1 (thrown_messages this1 KId "y" Hc1)).
    + apply (bool_decide_unpack _). reflexivity.
    + apply (bool_decide_unpack _). reflexivity.
  - apply (proj2 (thrown_messages this2 KId "y" Hc2) [] KClass).
    + reflexivity.
    + unfold RANK. lia.
    + intros [_ Hin]. apply (bool_decide_eq_true_2 _) in Hin.
      vm_compute in Hin. discriminate Hin.
Defined.

(** The claim C7 as worded fails : the error that [id('x').id('y')] throws
    and the error that [class('x').id('y')] throws do not carry the
    messages of the specification. *)
Lemma thrown_messages_not_as_specified :
  let this1 := (fragment KId "x" new_BuilderHelper).1 in
  let this2 := (fragment KClass "x" new_BuilderHelper).1 in
  (fragment KId "y" this1).2 = Throw (DuplicateSingletonError this1)
  ∧ message (DuplicateSingletonError this1) ≠ spec_DuplicateSingleton_message
  ∧ (fragment KId "y" this2).2 = Throw (OrderViolationError this2)
  ∧ message (OrderViolationError this2) ≠ spec_OrderViolation_message.
Proof.
  intros this1 this2.
  split; [reflexivity|]. split; [vm_compute; discriminate|].
  split; [reflexivity|]. vm_compute; discriminate.
Qed.

(** ** stringify *)

Lemma stringify_unfold this :
  BuilderHelper.stringify this = (this, Normal (res this)).
Proof. reflexivity. Qed.

(** C8 : [stringify()] returns the text and leaves the object as it was,
    however many times it is called, and on a new builder it returns the
    empty string. *)
Theorem stringify_pure :
  (∀ this, BuilderHelper.stringify this = (this, Normal (res this)))
  ∧ (∀ n this,
       stringify_times n this = (this, Normal (replicate n (res this))))
  ∧ BuilderHelper.stringify new_BuilderHelper = (new_BuilderHelper, Normal "").
Proof.
  split; [exact stringify_unfold|]. split; [|reflexivity].
  intros n this. induction n as [|n IH]; [reflexivity|].
  change (stringify_times (S n) this) with
    (match BuilderHelper.stringify this with
     | (this', Normal s) =>
         match stringify_times n this' with
         | (this'', Normal l) => (this'', Normal (s :: l))
         | (this'', Throw e) => (this'', Throw e)
         end
     | (this', Throw e) => (this', Throw e)
     end).
  by rewrite stringify_unfold, IH.
Qed.

(** ** Sequences of kinds *)

Lemma ranks_nondecreasing_snoc ks k :
  ranks_nondecreasing (ks ++ [k])
  = ranks_nondecreasing ks && last_rank_ok ks k.
Proof.
  unfold last_rank_ok. induction ks as [|k1 [|k2 ks] IH].
  - reflexivity.
  - simpl. by rewrite andb_true_r.
  - change (bool_decide (RANK k1 ≤ RANK k2)
            && ranks_nondecreasing ((k2 :: ks) ++ [k])
            = bool_decide (RANK k1 ≤ RANK k2)
              && ranks_nondecreasing (k2 :: ks)
              && match last (k1 :: k2 :: ks) with
                 | Some l => bool_decide (RANK l ≤ RANK k)
                 | None => true
                 end).
    by rewrite IH, last_cons_cons, andb_assoc.
Qed.

Lemma ranks_nondecreasing_app_l ks1 ks2 :
  ranks_nondecreasing (ks1 ++ ks2) = true → ranks_nondecreasing ks1 = true.
Proof.
  induction ks2 as [|k ks2 IH] using rev_ind; [by rewrite app_nil_r|].
  rewrite app_assoc, ranks_nondecreasing_snoc.
  intros [H _]%andb_true_iff. by apply IH.
Qed.

(** Comparing neighbours is comparing all pairs : the sequence of ranks is
    sorted. *)
Lemma ranks_nondecreasing_sorted ks :
  ranks_nondecreasing ks = true
  ↔ StronglySorted (λ k1 k2, RANK k1 ≤ RANK k2) ks.
Proof.
  split.
  - intros H. apply Sorted_StronglySorted; [intros x y z; lia|].
    induction ks as [|k1 [|k2 ks] IH]; [constructor|by repeat constructor|].
    change (bool_decide (RANK k1 ≤ RANK k2)
            && ranks_nondecreasing (k2 :: ks) = true) in H.
    apply andb_true_iff in H as [H1%bool_decide_eq_true H2].
    constructor; [by apply IH|by constructor].
  - intros H%StronglySorted_Sorted.
    induction ks as [|k1 [|k2 ks] IH]; [reflexivity..|].
    apply Sorted_inv in H as [H1 H2]. apply HdRel_inv in H2.
    change (bool_decide (RANK k1 ≤ RANK k2)
            && ranks_nondecreasing (k2 :: ks) = true).
    by rewrite IH, bool_decide_eq_true_2.
Qed.

Lemma occurrences_app k ks1 ks2 :
  occurrences k (ks1 ++ ks2) = (occurrences k ks1 + occurrences k ks2)%nat.
Proof. unfold occurrences. by rewrite filter_app, length_app. Qed.

Lemma occurrences_self k : occurrences k [k] = 1%nat.
Proof. unfold occurrences. by rewrite filter_cons_True. Qed.

Lemma occurrences_other k k' : k' ≠ k → occurrences k [k'] = 0%nat.
Proof. intros H. unfold occurrences. by rewrite filter_cons_False. Qed.

Lemma occurrences_pos k ks : k ∈ ks → (0 < occurrences k ks)%nat.
Proof.
  intros (ks1&ks2&->)%list_elem_of_split.
  rewrite occurrences_app. change (k :: ks2) with ([k] ++ ks2).
  rewrite occurrences_app, occurrences_self. lia.
Qed.

Lemma occurrences_zero k ks : k ∉ ks → occurrences k ks = 0%nat.
Proof.
  intros Hn. unfold occurrences.
  destruct (filter (λ k', k' = k) ks) as [|x l] eqn:Hf; [reflexivity|].
  assert (x ∈ filter (λ k', k' = k) ks) as [-> Hin]%list_elem_of_filter
    by (rewrite Hf; left).
  done.
Qed.

Lemma singletons_once_spec ks :
  singletons_once ks = true
  ↔ ∀ k, k ∈ SINGLETON_KINDS → (occurrences k ks ≤ 1)%nat.
Proof.
  unfold singletons_once, SINGLETON_KINDS. simpl.
  rewrite !andb_true_iff, !bool_decide_eq_true. split.
  - intros (H1&H2&H3&_) k Hk.
    repeat (apply elem_of_cons in Hk as [->|Hk]; [done|]).
    by apply elem_of_nil in Hk.
  - intros H. repeat split; apply H; set_solver.
Qed.

Lemma singletons_once_app_l ks1 ks2 :
  singletons_once (ks1 ++ ks2) = true → singletons_once ks1 = true.
Proof.
  rewrite !singletons_once_spec. intros H k Hk.
  specialize (H k Hk). rewrite occurrences_app in H. lia.
Qed.

Lemma singletons_once_snoc ks k :
  singletons_once ks = true →
  ¬ (k ∈ SINGLETON_KINDS ∧ k ∈ ks) →
  singletons_once (ks ++ [k]) = true.
Proof.
  rewrite !singletons_once_spec. intros H Hn k' Hk'.
  rewrite occurrences_app. specialize (H k' Hk').
  destruct (decide (k = k')) as [->|Hne].
  - rewrite occurrences_self, occurrences_zero; [lia|]. naive_solver.
  - rewrite (occurrences_other _ _ Hne). lia.
Qed.

Lemma singletons_once_snoc_inv ks k :
  singletons_once (ks ++ [k]) = true → ¬ (k ∈ SINGLETON_KINDS ∧ k ∈ ks).
Proof.
  rewrite singletons_once_spec. intros H [Hk Hin]. specialize (H k Hk).
  rewrite occurrences_app, occurrences_self in H.
  apply occurrences_pos in Hin. lia.
Qed.

(** One call, on a builder whose selectors used are the names of [ks]. *)
Lemma fragment_kinds k value this ks :
  class_consts this →
  usedSelectors this = tag <$> ks →
  fragment k value this =
  if bool_decide (k ∈ ks) && is_singleton k
  then (this, Throw (DuplicateSingletonError this))
  else if negb (last_rank_ok ks k)
  then (this, Throw (OrderViolationError this))
  else (append_res (rendered k value) (push_usedSelectors (tag k) this),
        Normal ()).
Proof.
  intros Hc Hu. rewrite (fragment_step _ _ _ Hc), Hu, includes_tag.
  destruct (bool_decide (k ∈ ks) && is_singleton k); [reflexivity|].
  assert (order_check this k = negb (last_rank_ok ks k)) as ->; [|done].
  unfold last_rank_ok. destruct ks as [|l ks _] using rev_ind.
  - by apply order_check_empty.
  - rewrite fmap_app in Hu. rewrite (order_check_last _ _ _ _ Hc Hu).
    rewrite last_snoc. apply eq_true_iff_eq.
    rewrite negb_true_iff, bool_decide_eq_true, bool_decide_eq_false. lia.
Qed.

Lemma fragment_accepted k value this ks :
  class_consts this →
  usedSelectors this = tag <$> ks →
  ¬ (k ∈ SINGLETON_KINDS ∧ k ∈ ks) →
  last_rank_ok ks k = true →
  fragment k value this =
  (append_res (rendered k value) (push_usedSelectors (tag k) this), Normal ()).
Proof.
  intros Hc Hu Hn Hr. rewrite (fragment_kinds _ _ _ _ Hc Hu), Hr.
  destruct (bool_decide (k ∈ ks) && is_singleton k) eqn:Hd; [|done].
  apply andb_true_iff in Hd as [Hin%bool_decide_eq_true Hs%bool_decide_eq_true].
  destruct Hn. by split.
Qed.

Lemma fragment_normal_inv k value this ks this' :
  class_consts this →
  usedSelectors this = tag <$> ks →
  fragment k value this = (this', Normal ()) →
  this' = append_res (rendered k value) (push_usedSelectors (tag k) this)
  ∧ ¬ (k ∈ SINGLETON_KINDS ∧ k ∈ ks)
  ∧ last_rank_ok ks k = true.
Proof.
  intros Hc Hu. rewrite (fragment_kinds _ _ _ _ Hc Hu).
  destruct (bool_decide (k ∈ ks) && is_singleton k) eqn:Hd; [discriminate|].
  destruct (last_rank_ok ks k); [|discriminate].
  intros [= <-]. split; [done|]. split; [|done].
  intros [Hs Hin]. apply andb_false_iff in Hd as [Hf|Hf].
  - apply bool_decide_eq_false in Hf. done.
  - apply bool_decide_eq_false in Hf. done.
Qed.

(** ** Reachable builders *)

Lemma builder_inv_new : builder_inv [] new_BuilderHelper.
Proof. by repeat split. Qed.

Lemma builder_inv_fragment calls this k value this' :
  builder_inv calls this →
  fragment k value this = (this', Normal ()) →
  builder_inv (calls ++ [(k, value)]) this'.
Proof.
  intros (Hc&Hu&Hr&Hs&Ht) Hf.
  apply (fragment_normal_inv _ _ _ _ _ Hc Hu) in Hf as (->&Hn&Hl).
  unfold builder_inv. rewrite fmap_app. simpl.
  split; [by apply class_consts_append_res, class_consts_push|].
  split; [by rewrite Hu, fmap_app|].
  split; [by rewrite ranks_nondecreasing_snoc, Hr, Hl|].
  split; [by apply singletons_once_snoc|].
  by rewrite Ht, rendered_calls_snoc.
Qed.

(** In particular no method assigns the fields the constructor set. *)
Lemma reachable_inv calls this :
  reachable calls this → builder_inv calls this.
Proof.
  induction 1 as [|calls this k value this' _ IH Hf
                  |calls this k value this' e _ IH Hf
                  |calls this this' c _ IH Hf].
  - apply builder_inv_new.
  - by apply (builder_inv_fragment calls this).
  - by apply fragment_throw_same in Hf as ->.
  - rewrite stringify_unfold in Hf. by injection Hf as <- _.
Qed.

(** C6 : on every builder that calls of the methods produce from a new
    instance, the selectors used are the kinds of the fragments appended,
    in order; their ranks are non-decreasing; each singleton kind occurs
    at most once; and the text is the concatenation of the rendered forms
    of the fragments appended, in order. *)
Theorem reachable_invariants calls this :
  reachable calls this →
  usedSelectors this = tag <$> calls.*1
  ∧ ranks_nondecreasing calls.*1 = true
  ∧ (∀ k, k ∈ SINGLETON_KINDS → (occurrences k calls.*1 ≤ 1)%nat)
  ∧ res this = rendered_calls calls.
Proof.
  intros (_&Hu&Hr&Hs&Ht)%reachable_inv.
  by rewrite singletons_once_spec in Hs.
Qed.

Lemma reachable_invariants_witness :
  let this :=
    (chain [(KElement, "div"); (KId, "main")] new_BuilderHelper).1 in
  reachable [(KElement, "div"); (KId, "main")] this
  ∧ usedSelectors this = ["element"; "id"]
  ∧ res this = "div#main".
Proof.
  intros this.
  assert (reachable ([] ++ [(KElement, "div")] ++ [(KId, "main")]) this)
    as Hreach.
  { rewrite app_assoc.
    apply (reachable_fragment _
             (fragment KElement "div" new_BuilderHelper).1);
      [|reflexivity].
    apply (reachable_fragment _ new_BuilderHelper); [|reflexivity].
    apply reachable_new. }
  split; [exact Hreach|].
  destruct (reachable_invariants _ _ Hreach) as (Hu & _ & _ & Ht).
  split; [exact Hu|exact Ht].
Defined.

(** ** Valid chains *)

Lemma chain_cons k value calls this :
  chain ((k, value) :: calls) this =
  match fragment k value this with
  | (this', Normal _) => chain calls this'
  | (this', Throw e) => (this', Throw e)
  end.
Proof. reflexivity. Qed.

Lemma valid_kinds_app_l ks1 ks2 :
  valid_kinds (ks1 ++ ks2) = true → valid_kinds ks1 = true.
Proof.
  unfold valid_kinds. rewrite !andb_true_iff. intros [Hr Hs].
  split; [by apply (ranks_nondecreasing_app_l _ ks2)
         |by apply (singletons_once_app_l _ ks2)].
Qed.

Lemma chain_valid calls : ∀ done_calls this,
  builder_inv done_calls this →
  valid_kinds (done_calls.*1 ++ calls.*1) = true →
  ∃ this', chain calls this = (this', Normal ())
           ∧ builder_inv (done_calls ++ calls) this'.
Proof.
  induction calls as [|[k value] calls IH]; intros done_calls this Hinv Hv.
  - exists this. by rewrite app_nil_r.
  - simpl in Hv. rewrite cons_middle, app_assoc in Hv.
    pose proof (valid_kinds_app_l _ _ Hv) as Hv1.
    unfold valid_kinds in Hv1.
    apply andb_true_iff in Hv1 as [Hr Hs].
    rewrite ranks_nondecreasing_snoc in Hr.
    apply andb_true_iff in Hr as [_ Hl].
    apply singletons_once_snoc_inv in Hs.
    pose proof Hinv as (Hc&Hu&_).
    pose proof (fragment_accepted k value _ _ Hc Hu Hs Hl) as Hf.
    rewrite chain_cons, Hf.
    pose proof (builder_inv_fragment _ _ _ _ _ Hinv Hf) as Hinv'.
    destruct (IH _ _ Hinv') as (this'&Hch&Hinv'').
    { by rewrite fmap_app. }
    exists this'. split; [exact Hch|].
    by rewrite cons_middle, app_assoc.
Qed.

(** C1 : a sequence of fragment calls on a new builder whose kinds obey
    the validation rules (ranks non-decreasing, each singleton kind at
    most once) is accepted as a whole, and [stringify()] then returns the
    rendered forms of the fragments concatenated in call order, with
    nothing between them. *)
Theorem stringify_valid_chain calls :
  valid_kinds calls.*1 = true →
  ∃ this,
    chain calls new_BuilderHelper = (this, Normal ())
    ∧ BuilderHelper.stringify this = (this, Normal (rendered_calls calls)).
Proof.
  intros Hv.
  destruct (chain_valid calls [] new_BuilderHelper builder_inv_new Hv)
    as (this&Hch&(_&_&_&_&Ht)).
  exists this. split; [exact Hch|]. by rewrite stringify_unfold, Ht.
Qed.

Lemma stringify_valid_chain_witness :
  ∃ this,
    chain [(KElement, "div"); (KId, "main"); (KClass, "container");
           (KClass, "draggable")] new_BuilderHelper = (this, Normal ())
    ∧ BuilderHelper.stringify this
      = (this, Normal "div#main.container.draggable").
Proof.
  apply (stringify_valid_chain
           [(KElement, "div"); (KId, "main"); (KClass, "container");
            (KClass, "draggable")]).
  reflexivity.
Defined.

(** ** The facade *)

Lemma facade_fragment_unfold k value this :
  facade_fragment k value this = on_new (fragment k value) this.
Proof. by destruct k. Qed.

(** The fragment methods of the facade leave the facade as it is and
    return a new instance. *)
Lemma facade_fragment_new k value this :
  facade_fragment k value this =
  (this, Normal (Instance
     (append_res (rendered k value)
        (push_usedSelectors (tag k) new_BuilderHelper)))).
Proof.
  rewrite facade_fragment_unfold. unfold on_new. by rewrite fragment_new.
Qed.

Lemma invoke_all_instance calls : ∀ b this,
  invoke_all calls (Instance b) this =
  match chain calls b with
  | (b', Normal _) => (this, Normal (Instance b'))
  | (_, Throw e) => (this, Throw e)
  end.
Proof.
  induction calls as [|[k value] calls IH]; intros b this; [reflexivity|].
  rewrite chain_cons.
  change (invoke_all ((k, value) :: calls) (Instance b) this) with
    (match invoke k value (Instance b) this with
     | (this', Normal s) => invoke_all calls s this'
     | (this', Throw e) => (this', Throw e)
     end).
  simpl. destruct (fragment k value b) as [b' [[]|e]]; [apply IH|reflexivity].
Qed.

Lemma stringify_of_instance b this :
  stringify_of (Instance b) this = (this, Normal (Some (res b))).
Proof. reflexivity. Qed.

Lemma stringify_of_text selector this text :
  stringify_of selector this = (this, Normal (Some text)) →
  text_of selector this = text.
Proof.
  destruct selector as [b|].
  - rewrite stringify_of_instance. unfold text_of, to_text. congruence.
  - destruct this as [[r|]]; cbv; congruence.
Qed.

(** One call of [combine] : the object returned is the facade, and its
    [stringify()] gives the text of the first operand, a space, the
    combinator, a space, the text of the second operand, the texts being
    those the operands have when [combine] is called. *)
Lemma combine_text selector1 combinator selector2 this :
  let text := text_of selector1 this +:+ " " +:+ combinator +:+ " "
              +:+ text_of selector2 this in
  cssSelectorBuilder.combine selector1 combinator selector2 this
  = ({| facade_res := Some text |}, Normal TheFacade)
  ∧ stringify_of TheFacade {| facade_res := Some text |}
    = ({| facade_res := Some text |}, Normal (Some text)).
Proof. by split. Qed.

(** A chain that obeys the validation rules evaluates to a new instance
    that holds its text, and leaves the facade as it is. *)
Lemma eval_chain k value rest this :
  valid_kinds (k :: rest.*1) = true →
  ∃ b, eval (EChain k value rest) this = (this, Normal (Instance b))
       ∧ res b = rendered_calls ((k, value) :: rest).
Proof.
  intros Hv.
  change (eval (EChain k value rest) this) with
    (match facade_fragment k value this with
     | (this', Normal s) => invoke_all rest s this'
     | (this', Throw e) => (this', Throw e)
     end).
  rewrite facade_fragment_new, invoke_all_instance.
  destruct (chain_valid rest [(k, value)]
              (append_res (rendered k value)
                 (push_usedSelectors (tag k) new_BuilderHelper)))
    as (b&Hch&(_&_&_&_&Ht)); [|exact Hv|].
  { apply (builder_inv_fragment [] new_BuilderHelper);
      [apply builder_inv_new|apply fragment_new]. }
  rewrite Hch. by exists b.
Qed.

(** Nested calls of [combine] compose textually, to any depth, as long as
    no call has a call of [combine] for both operands. *)
Lemma eval_one_sided e :
  one_sided e = true → chains_valid e = true →
  ∀ this, ∃ this' s,
    eval e this = (this', Normal s)
    ∧ stringify_of s this' = (this', Normal (Some (expr_text e)))
    ∧ (is_chain e = true → this' = this ∧ ∃ b, s = Instance b).
Proof.
  induction e as [k value rest|e1 IH1 combinator e2 IH2]; intros Ho Hv this.
  - destruct (eval_chain k value rest this Hv) as (b&He&Ht).
    exists this, (Instance b). rewrite stringify_of_instance, Ht. eauto.
  - simpl in Ho, Hv.
    apply andb_true_iff in Ho as [[Hside Ho1]%andb_true_iff Ho2].
    apply andb_true_iff in Hv as [Hv1 Hv2].
    destruct (IH1 Ho1 Hv1 this) as (this1&s1&He1&Hs1&Hc1).
    destruct (IH2 Ho2 Hv2 this1) as (this2&s2&He2&Hs2&Hc2).
    change (eval (ECombine e1 combinator e2) this) with
      (match eval e1 this with
       | (this', Normal s) =>
           match eval e2 this' with
           | (this'', Normal s') =>
               cssSelectorBuilder.combine s combinator s' this''
           | (this'', Throw e) => (this'', Throw e)
           end
       | (this', Throw e) => (this', Throw e)
       end).
    rewrite He1, He2.
    destruct (combine_text s1 combinator s2 this2) as [Hcomb Hstr].
    rewrite Hcomb. eexists _, TheFacade. split; [reflexivity|].
    split; [|discriminate]. rewrite Hstr.
    rewrite (stringify_of_text _ _ _ Hs2).
    assert (text_of s1 this2 = expr_text e1) as ->; [|reflexivity].
    apply orb_true_iff in Hside as [Hch|Hch].
    + destruct (Hc1 Hch) as (_&b&->).
      rewrite stringify_of_instance in Hs1. unfold text_of, to_text.
      congruence.
    + destruct (Hc2 Hch) as (->&_). by apply stringify_of_text.
Qed.

(** C4, at an input where the code departs from it : with a call of
    [combine] for both operands, both operands are the facade, whose text
    the second inner call has overwritten, and the text of the first
    operand is lost. *)
Theorem combine_both_operands_nested :
  let e := ECombine
             (ECombine (EChain KElement "a" []) "~" (EChain KElement "b" []))
             "+"
             (ECombine (EChain KElement "c" []) ">" (EChain KElement "d" []))
  in
  chains_valid e = true
  ∧ expr_text e = "a ~ b + c > d"
  ∧ (s ← eval e; stringify_of s) cssSelectorBuilder
    = ({| facade_res := Some "c > d + c > d" |},
       Normal (Some "c > d + c > d")).
Proof. by repeat split. Qed.

(** C9 : [combine] returns the facade itself and keeps the combined text
    in the one field of the facade, so that after a second call the result
    of the first call gives the text of the second. *)
Theorem combine_results_share_text a c1 b x c2 y this :
  (cssSelectorBuilder.combine a c1 b this).2 = Normal TheFacade
  ∧ (let this1 := (cssSelectorBuilder.combine a c1 b this).1 in
     let text2 := text_of x this1 +:+ " " +:+ c2 +:+ " " +:+ text_of y this1 in
     (r1 ← cssSelectorBuilder.combine a c1 b;
      r2 ← cssSelectorBuilder.combine x c2 y;
      s ← stringify_of r1;
      mret (r1, r2, s)) this
     = ({| facade_res := Some text2 |},
        Normal (TheFacade, TheFacade, Some text2))).
Proof. by split. Qed.

Example second_combine_overwrites_first :
  (r1 ← (a ← cssSelectorBuilder.element "a";
         b ← cssSelectorBuilder.element "b";
         cssSelectorBuilder.combine a "+" b);
   r2 ← (c ← cssSelectorBuilder.element "c";
         d ← cssSelectorBuilder.element "d";
         cssSelectorBuilder.combine c ">" d);
   stringify_of r1) cssSelectorBuilder
  = ({| facade_res := Some "c > d" |}, Normal (Some "c > d")).
Proof. reflexivity. Qed.

Lemma facade_calls_unchanged calls this :
  facade_calls calls this = (this, Normal ()).
Proof.
  induction calls as [|[k value] calls IH]; [reflexivity|].
  change (facade_calls ((k, value) :: calls) this) with
    (match facade_fragment k value this with
     | (this', Normal _) => facade_calls calls this'
     | (this', Throw e) => (this', Throw e)
     end).
  by rewrite facade_fragment_new.
Qed.

(** C10 : [stringify()] on the facade before any call of [combine], after
    any calls of its fragment methods, returns [undefined] : the field it
    reads was never assigned.  It does not return the empty string. *)
Theorem facade_stringify_undefined :
  cssSelectorBuilder.stringify cssSelectorBuilder
  = (cssSelectorBuilder, Normal None)
  ∧ (∀ calls,
       (facade_calls calls ;; cssSelectorBuilder.stringify) cssSelectorBuilder
       = (cssSelectorBuilder, Normal None))
  ∧ (cssSelectorBuilder.stringify cssSelectorBuilder).2 ≠ Normal (Some "").
Proof.
  split; [reflexivity|]. split; [|discriminate].
  intros calls.
  change ((facade_calls calls ;; cssSelectorBuilder.stringify)
            cssSelectorBuilder) with
    (match facade_calls calls cssSelectorBuilder with
     | (this', Normal _) => cssSelectorBuilder.stringify this'
     | (this', Throw e) => (this', Throw e)
     end).
  by rewrite facade_calls_unchanged.
Qed.

(** ** The examples of the specification *)

Example stringify_div_main :
  (chain [(KElement, "div"); (KId, "main"); (KClass, "container");
          (KClass, "draggable")] ;; BuilderHelper.stringify)
    new_BuilderHelper
  = ((chain [(KElement, "div"); (KId, "main"); (KClass, "container");
             (KClass, "draggable")] new_BuilderHelper).1,
     Normal "div#main.container.draggable").
Proof. reflexivity. Qed.

Example stringify_main_editable :
  (s ← eval (EChain KId "main" [(KClass, "container"); (KClass, "editable")]);
   stringify_of s) cssSelectorBuilder
  = (cssSelectorBuilder, Normal (Some "#main.container.editable")).
Proof. reflexivity. Qed.

Example stringify_href_focus :
  (s ← eval (EChain KElement "a"
               [(KAttribute, "href$=" +:+ dquote +:+ ".png" +:+ dquote);
                (KPseudoClass, "focus")]);
   stringify_of s) cssSelectorBuilder
  = (cssSelectorBuilder,
     Normal (Some ("a[href$=" +:+ dquote +:+ ".png" +:+ dquote +:+ "]:focus"))).
Proof. reflexivity. Qed.

Example duplicate_id_throws :
  (chain [(KId, "x"); (KId, "y")] new_BuilderHelper).2
  = Throw (DuplicateSingletonError new_BuilderHelper).
Proof. reflexivity. Qed.

Example class_then_id_throws :
  (chain [(KClass, "x"); (KId, "y")] new_BuilderHelper).2
  = Throw (OrderViolationError new_BuilderHelper).
Proof. reflexivity. Qed.

Example combine_table_tr :
  (s ← eval (ECombine (EChain KElement "table" [(KId, "data")]) "~"
                      (EChain KElement "tr" []));
   stringify_of s) cssSelectorBuilder
  = ({| facade_res := Some "table#data ~ tr" |},
     Normal (Some "table#data ~ tr")).
Proof. reflexivity. Qed.

(** The example of the source : calls of [combine] nested on the right. *)
Example combine_nested_right :
  (s ← eval
         (ECombine
            (EChain KElement "div"
               [(KId, "main"); (KClass, "container"); (KClass, "draggable")])
            "+"
            (ECombine
               (EChain KElement "table" [(KId, "data")])
               "~"
               (ECombine
                  (EChain KElement "tr" [(KPseudoClass, "nth-of-type(even)")])
                  " "
                  (EChain KElement "td"
                     [(KPseudoClass, "nth-of-type(even)")]))));
   stringify_of s) cssSelectorBuilder
  = ({| facade_res := Some
          "div#main.container.draggable + table#data ~ tr:nth-of-type(even)   td:nth-of-type(even)" |},
     Normal (Some
          "div#main.container.draggable + table#data ~ tr:nth-of-type(even)   td:nth-of-type(even)")).
Proof. reflexivity. Qed.

(** The facade passed to [combine] before any text was stored : the
    template literal prints [undefined]. *)
Example combine_facade_unassigned :
  (s ← cssSelectorBuilder.combine TheFacade "+" TheFacade; stringify_of s)
    cssSelectorBuilder
  = ({| facade_res := Some "undefined + undefined" |},
     Normal (Some "undefined + undefined")).
Proof. reflexivity. Qed.

(** * Further properties of the builder *)

(** ** Chains of calls *)

Lemma chain_app calls1 : ∀ calls2 this,
  chain (calls1 ++ calls2) this =
  match chain calls1 this with
  | (this', Normal _) => chain calls2 this'
  | (this', Throw e) => (this', Throw e)
  end.
Proof.
  induction calls1 as [|[k value] calls1 IH]; intros calls2 this;
    [reflexivity|].
  rewrite <- app_comm_cons, !chain_cons.
  destruct (fragment k value this) as [this' [[]|e]]; [apply IH|reflexivity].
Qed.

Lemma chain_inv calls : ∀ done_calls this this',
  builder_inv done_calls this →
  chain calls this = (this', Normal ()) →
  builder_inv (done_calls ++ calls) this'.
Proof.
  induction calls as [|[k value] calls IH]; intros done_calls this this' Hinv.
  - intros [= <-]. by rewrite app_nil_r.
  - rewrite chain_cons.
    destruct (fragment k value this) as [this1 [[]|e]] eqn:Hf; [|discriminate].
    intros Hch. rewrite cons_middle, app_assoc.
    apply (IH _ this1); [|exact Hch].
    by apply (builder_inv_fragment _ this).
Qed.

Lemma builder_inv_valid calls this :
  builder_inv calls this → valid_kinds calls.*1 = true.
Proof. intros (_&_&Hr&Hs&_). unfold valid_kinds. by rewrite Hr, Hs. Qed.

(** X1 : a chain of calls on a new builder is accepted as a whole exactly
    when its kinds obey the validation rules. *)
Theorem chain_accepted_iff_valid calls :
  (∃ this, chain calls new_BuilderHelper = (this, Normal ()))
  ↔ valid_kinds calls.*1 = true.
Proof.
  split.
  - intros (this&Hch).
    apply (builder_inv_valid calls this).
    by apply (chain_inv calls [] new_BuilderHelper this builder_inv_new).
  - intros Hv.
    destruct (chain_valid calls [] new_BuilderHelper builder_inv_new Hv)
      as (this&Hch&_).
    by exists this.
Qed.

(** A call either throws one of the two errors and leaves the object as
    it is, or appends. *)
Lemma fragment_cases k value this :
  fragment k value this = (this, Throw (DuplicateSingletonError this))
  ∨ fragment k value this = (this, Throw (OrderViolationError this))
  ∨ fragment k value this =
    (append_res (rendered k value) (push_usedSelectors (tag k) this),
     Normal ()).
Proof.
  rewrite fragment_unfold, errorHandler_unfold.
  destruct (includes _ _ && includes _ _); [by left|].
  destruct (js_gt _ _); [by right; left|by right; right].
Qed.

(** X2 : in a chain on a new builder, the first call that breaks the
    validation rules throws one of the two errors; the calls after it are
    not made, and the builder keeps the text and the selectors of the
    calls before it. *)
Theorem chain_first_rejection calls1 k value calls2 :
  valid_kinds calls1.*1 = true →
  valid_kinds (calls1.*1 ++ [k]) = false →
  ∃ this e,
    chain (calls1 ++ (k, value) :: calls2) new_BuilderHelper = (this, Throw e)
    ∧ res this = rendered_calls calls1
    ∧ usedSelectors this = tag <$> calls1.*1
    ∧ (e = DuplicateSingletonError this ∨ e = OrderViolationError this).
Proof.
  intros Hv Hnv.
  destruct (chain_valid calls1 [] new_BuilderHelper builder_inv_new Hv)
    as (this&Hch&Hinv).
  simpl in Hinv. pose proof Hinv as (_&Hu&_&_&Ht).
  rewrite chain_app, Hch, chain_cons.
  destruct (fragment_cases k value this) as [Hf|[Hf|Hf]]; rewrite Hf.
  - exists this, (DuplicateSingletonError this). by auto.
  - exists this, (OrderViolationError this). by auto.
  - apply (builder_inv_fragment _ _ _ _ _ Hinv), builder_inv_valid in Hf.
    rewrite fmap_app in Hf. simpl in Hf. congruence.
Qed.

Lemma chain_first_rejection_witness :
  ∃ this e,
    chain ([(KElement, "div"); (KClass, "c")] ++ (KId, "main")
             :: [(KClass, "d")]) new_BuilderHelper = (this, Throw e)
    ∧ res this = "div.c"
    ∧ usedSelectors this = ["element"; "class"]
    ∧ (e = DuplicateSingletonError this ∨ e = OrderViolationError this).
Proof.
  apply (chain_first_rejection [(KElement, "div"); (KClass, "c")] KId "main"
           [(KClass, "d")]); reflexivity.
Defined.

(** X3 : a chain of calls only appends, whether it is accepted or throws,
    and on any object : the text before is a prefix of the text after,
    the selectors used before are a prefix of those used after, and the
    four fields the constructor sets are not assigned. *)
Theorem chain_append_only calls : ∀ this,
  let this' := (chain calls this).1 in
  (∃ text, res this' = res this +:+ text)
  ∧ usedSelectors this `prefix_of` usedSelectors this'
  ∧ uniqueSelectors this' = uniqueSelectors this
  ∧ order this' = order this
  ∧ firstErr this' = firstErr this
  ∧ secondErr this' = secondErr this.
Proof.
  induction calls as [|[k value] calls IH]; intros this; cbv zeta.
  - split; [exists ""; by rewrite append_nil_r|done].
  - rewrite chain_cons.
    destruct (fragment_cases k value this) as [Hf|[Hf|Hf]]; rewrite Hf; simpl.
    1,2: split; [exists ""; by rewrite append_nil_r|done].
    destruct (IH (append_res (rendered k value)
                    (push_usedSelectors (tag k) this)))
      as ((text&Ht)&Hp&Hq&Ho&H1&H2).
    simpl in *. rewrite Hq, Ho, H1, H2.
    split; [|split; [|done]].
    + exists (rendered k value +:+ text). by rewrite Ht, append_assoc.
    + etrans; [|exact Hp]. by apply prefix_app_r.
Qed.

(** ** What the two tests imply *)

Lemma includes_snoc x arr : includes x (arr ++ [x]) = true.
Proof. apply includes_true. set_solver. Qed.

(** X4 : once the last selector used is a pseudo-element, every fragment
    method throws and the object stays as it is : a second pseudo-element
    is a duplicate, and every other kind has a lower rank. *)
Theorem pseudoElement_is_last this pre k value :
  class_consts this →
  usedSelectors this = pre ++ [tag KPseudoElement] →
  ∃ e, fragment k value this = (this, Throw e).
Proof.
  intros Hc Hu.
  rewrite (fragment_step _ _ _ Hc), (order_check_last _ _ _ _ Hc Hu), Hu.
  destruct k; try (rewrite bool_decide_eq_true_2 by (unfold RANK; lia);
                   destruct (_ && _); by eexists).
  rewrite includes_snoc. by eexists.
Qed.

Lemma pseudoElement_is_last_witness :
  let this :=
    (chain [(KElement, "p"); (KPseudoElement, "first-line")]
       new_BuilderHelper).1 in
  ∃ e, fragment KPseudoClass "hover" this = (this, Throw e).
Proof.
  intros this.
  apply (pseudoElement_is_last this ["element"] KPseudoClass "hover");
    [repeat split; reflexivity|reflexivity].
Defined.

(** X5 : [element] is accepted only as the first call : on a builder whose
    last selector used is of any of the six kinds, it throws. *)
Theorem element_only_first this pre l value :
  class_consts this →
  usedSelectors this = pre ++ [tag l] →
  ∃ e, fragment KElement value this = (this, Throw e).
Proof.
  intros Hc Hu.
  rewrite (fragment_step _ _ _ Hc), (order_check_last _ _ _ _ Hc Hu), Hu.
  destruct l; try (rewrite bool_decide_eq_true_2 by (unfold RANK; lia);
                   destruct (_ && _); by eexists).
  rewrite includes_snoc. by eexists.
Qed.

Lemma element_only_first_witness :
  let this := (fragment KClass "c" new_BuilderHelper).1 in
  ∃ e, fragment KElement "div" this = (this, Throw e).
Proof.
  intros this.
  apply (element_only_first this [] KClass "div");
    [repeat split; reflexivity|reflexivity].
Defined.

Lemma sorted_snoc_all ks k :
  StronglySorted (λ k1 k2, RANK k1 ≤ RANK k2) (ks ++ [k]) →
  ∀ k', k' ∈ ks → RANK k' ≤ RANK k.
Proof.
  induction ks as [|k1 ks IH]; intros Hs k' Hin; [by apply elem_of_nil in Hin|].
  apply StronglySorted_inv in Hs as [Hs Hall].
  apply elem_of_cons in Hin as [->|Hin]; [|by apply IH].
  rewrite Forall_forall in Hall. apply Hall. set_solver.
Qed.

Lemma last_rank_ok_all ks k :
  ranks_nondecreasing ks = true →
  last_rank_ok ks k = true ↔ ∀ k', k' ∈ ks → RANK k' ≤ RANK k.
Proof.
  intros Hr. split.
  - intros Hl. apply sorted_snoc_all, ranks_nondecreasing_sorted.
    by rewrite ranks_nondecreasing_snoc, Hr, Hl.
  - intros Hall. unfold last_rank_ok.
    destruct (last ks) as [l|] eqn:Hlast; [|reflexivity].
    apply bool_decide_eq_true, Hall.
    apply last_Some in Hlast as [pre ->]. set_solver.
Qed.

(** X6 : on a builder that calls of the methods produced from a new
    instance, comparing with the last kind is comparing with all of them :
    a fragment of kind [k] is accepted exactly when no fragment appended
    so far has a rank above the rank of [k], and [k] is not a singleton
    kind appended before. *)
Theorem accepted_iff_above_all calls this k value :
  reachable calls this →
  (fragment k value this).2 = Normal ()
  ↔ (∀ k', k' ∈ calls.*1 → RANK k' ≤ RANK k)
    ∧ ¬ (k ∈ SINGLETON_KINDS ∧ k ∈ calls.*1).
Proof.
  intros (Hc&Hu&Hr&_)%reachable_inv.
  rewrite <- (last_rank_ok_all _ _ Hr). split.
  - destruct (fragment k value this) as [this' [[]|e]] eqn:Hf; [|discriminate].
    intros _. by apply (fragment_normal_inv _ _ _ _ _ Hc Hu) in Hf as (_&?&?).
  - intros [Hl Hn]. by rewrite (fragment_accepted _ _ _ _ Hc Hu Hn Hl).
Qed.

Lemma accepted_iff_above_all_witness :
  let this :=
    (chain [(KElement, "div"); (KClass, "c")] new_BuilderHelper).1 in
  (fragment KAttribute "href" this).2 = Normal ()
  ↔ (∀ k', k' ∈ [KElement; KClass] → RANK k' ≤ RANK KAttribute)
    ∧ ¬ (KAttribute ∈ SINGLETON_KINDS ∧ KAttribute ∈ [KElement; KClass]).
Proof.
  intros this.
  apply (accepted_iff_above_all [(KElement, "div"); (KClass, "c")] this
           KAttribute "href").
  change [(KElement, "div"); (KClass, "c")]
    with (([] ++ [(KElement, "div")]) ++ [(KClass, "c")]).
  apply (reachable_fragment _ (fragment KElement "div" new_BuilderHelper).1);
    [|reflexivity].
  apply (reachable_fragment _ new_BuilderHelper); [|reflexivity].
  apply reachable_new.
Defined.

(** ** A name that is no key of [order] *)

Lemma js_gt_undefined_r a : js_gt a None = false.
Proof. by destruct a. Qed.

Lemma order_unknown selector this :
  class_consts this →
  (∀ k, selector ≠ tag k) →
  get_property (order this) (Some selector) = None
  ∧ includes selector (uniqueSelectors this) = false.
Proof.
  intros (Hq&Ho&_) Hne.
  pose proof (Hne KElement). pose proof (Hne KId). pose proof (Hne KClass).
  pose proof (Hne KAttribute). pose proof (Hne KPseudoClass).
  pose proof (Hne KPseudoElement). simpl in *.
  rewrite Hq, Ho. unfold get_property, to_property_key. simpl. split.
  - by rewrite !lookup_insert_ne, lookup_empty.
  - apply bool_decide_eq_false. intros Hin.
    repeat (apply elem_of_cons in Hin as [Heq|Hin]; [done|]).
    by apply elem_of_nil in Hin.
Qed.

(** X7 : [errorHandler] called with a name that is none of the six keys
    of [order] and no name inherited from [Object.prototype], so that
    [order[name]] is [undefined], never throws and records the name; the
    comparison with [undefined] is false.  After it the order test is
    void : a fragment of any kind is accepted unless it is a duplicate
    singleton, whatever the ranks of the selectors used before. *)
Theorem errorHandler_unknown_name selector this :
  class_consts this →
  (∀ k, selector ≠ tag k) →
  selector ∉ Object_prototype_names →
  BuilderHelper.errorHandler selector this
  = (push_usedSelectors selector this, Normal ())
  ∧ ∀ k value,
      ¬ (k ∈ SINGLETON_KINDS ∧ tag k ∈ usedSelectors this) →
      (fragment k value (push_usedSelectors selector this)).2 = Normal ().
Proof.
  intros Hc Hne _. destruct (order_unknown _ _ Hc Hne) as [Ho Hq]. split.
  - rewrite errorHandler_unfold, Hq, Ho, andb_false_r, js_gt_undefined_r.
    reflexivity.
  - intros k value Hn.
    pose proof (class_consts_push selector _ Hc) as Hc'.
    rewrite (fragment_step _ _ _ Hc').
    assert (order_check (push_usedSelectors selector this) k = false) as ->.
    { unfold order_check, at_last. simpl. rewrite last_snoc.
      pose proof Hc as (_&Heq&_). simpl. by rewrite Ho. }
    rewrite not_duplicate_false; [reflexivity|].
    intros [Hs Hin]. apply Hn. split; [done|]. simpl in Hin.
    apply elem_of_app in Hin as [Hin|Hin]; [done|].
    apply list_elem_of_singleton in Hin. by destruct (Hne k).
Qed.

Lemma errorHandler_unknown_name_witness :
  let this := (fragment KPseudoClass "hover" new_BuilderHelper).1 in
  (fragment KClass "c" this).2 = Throw (OrderViolationError this)
  ∧ (BuilderHelper.errorHandler "part" ;; fragment KClass "c") this
    = (append_res ".c"
         (push_usedSelectors "class" (push_usedSelectors "part" this)),
       Normal ()).
Proof.
  intros this. split; [reflexivity|].
  assert (class_consts this) as Hc by (repeat split; reflexivity).
  assert (∀ k, "part" ≠ tag k) as Hne by (by intros []).
  assert ("part" ∉ Object_prototype_names) as Hno.
  { intros Hin. apply (bool_decide_eq_true_2 _) in Hin.
    vm_compute in Hin. discriminate Hin. }
  destruct (errorHandler_unknown_name "part" this Hc Hne Hno) as [He Hf].
  change ((BuilderHelper.errorHandler "part" ;; fragment KClass "c") this)
    with (match BuilderHelper.errorHandler "part" this with
          | (this', Normal _) => fragment KClass "c" this'
          | (this', Throw e) => (this', Throw e)
          end).
  rewrite He. reflexivity.
Defined.

(** * Further properties of the facade *)

Lemma js_bind_unfold {S A B} (m : Js S A) (f : A → Js S B) (s : S) :
  (m ≫= f) s =
  match m s with
  | (s', Normal a) => f a s'
  | (s', Throw e) => (s', Throw e)
  end.
Proof. reflexivity. Qed.

Lemma eval_combine e1 combinator e2 this :
  eval (ECombine e1 combinator e2) this =
  match eval e1 this with
  | (this1, Normal s1) =>
      match eval e2 this1 with
      | (this2, Normal s2) =>
          cssSelectorBuilder.combine s1 combinator s2 this2
      | (this2, Throw e) => (this2, Throw e)
      end
  | (this1, Throw e) => (this1, Throw e)
  end.
Proof. reflexivity. Qed.

Lemma eval_chain_unfold k value rest this :
  eval (EChain k value rest) this =
  match chain rest (append_res (rendered k value)
                      (push_usedSelectors (tag k) new_BuilderHelper)) with
  | (b, Normal _) => (this, Normal (Instance b))
  | (_, Throw e) => (this, Throw e)
  end.
Proof.
  change (eval (EChain k value rest) this) with
    (match facade_fragment k value this with
     | (this', Normal s) => invoke_all rest s this'
     | (this', Throw e) => (this', Throw e)
     end).
  by rewrite facade_fragment_new, invoke_all_instance.
Qed.

(** X8 : a chain written on the facade builds its own instance : it
    leaves the facade as it is, also when a call of the chain throws, and
    its result does not depend on the text the facade holds. *)
Theorem chain_eval_frame k value rest this this0 :
  (eval (EChain k value rest) this).1 = this
  ∧ (eval (EChain k value rest) this).2 = (eval (EChain k value rest) this0).2.
Proof.
  rewrite !eval_chain_unfold.
  by destruct (chain rest _) as [b [[]|e]].
Qed.

(** An expression whose chains obey the validation rules evaluates without
    throwing : a chain to a new instance, the facade untouched; a call of
    [combine] to the facade, with a text assigned. *)
Lemma eval_valid e :
  chains_valid e = true →
  ∀ this, ∃ this' s,
    eval e this = (this', Normal s)
    ∧ (is_chain e = true → this' = this ∧ ∃ b, s = Instance b)
    ∧ (is_chain e = false →
       s = TheFacade ∧ ∃ text, facade_res this' = Some text).
Proof.
  induction e as [k value rest|e1 IH1 combinator e2 IH2]; intros Hv this.
  - destruct (eval_chain k value rest this Hv) as (b&He&_).
    exists this, (Instance b). split; [exact He|]. split; [eauto|discriminate].
  - simpl in Hv. apply andb_true_iff in Hv as [Hv1 Hv2].
    destruct (IH1 Hv1 this) as (this1&s1&He1&_).
    destruct (IH2 Hv2 this1) as (this2&s2&He2&_).
    rewrite eval_combine, He1, He2.
    destruct (combine_text s1 combinator s2 this2) as [-> _].
    eexists _, TheFacade. split; [reflexivity|].
    split; [discriminate|]. intros _. split; [reflexivity|]. by eexists.
Qed.

(** X9 : an expression whose chains all obey the validation rules never
    throws, however its calls of [combine] are nested, and [stringify()]
    on its result returns a text, never [undefined]. *)
Theorem eval_valid_returns_text e this :
  chains_valid e = true →
  ∃ this' text,
    (s ← eval e; stringify_of s) this = (this', Normal (Some text)).
Proof.
  intros Hv. destruct (eval_valid e Hv this) as (this'&s&He&Hch&Hco).
  rewrite js_bind_unfold, He. destruct (is_chain e) eqn:Hc.
  - destruct (Hch eq_refl) as (_&b&->). rewrite stringify_of_instance.
    by eexists _, _.
  - destruct (Hco eq_refl) as (->&text&Ht). exists this', text.
    unfold stringify_of. destruct this' as [r]. simpl in Ht. by subst r.
Qed.

Lemma eval_valid_returns_text_witness :
  ∃ this' text,
    (s ← eval (ECombine
                 (ECombine (EChain KElement "a" []) "~"
                           (EChain KElement "b" []))
                 "+"
                 (ECombine (EChain KElement "c" []) ">"
                           (EChain KElement "d" [])));
     stringify_of s) cssSelectorBuilder = (this', Normal (Some text)).
Proof.
  apply (eval_valid_returns_text
           (ECombine
              (ECombine (EChain KElement "a" []) "~" (EChain KElement "b" []))
              "+"
              (ECombine (EChain KElement "c" []) ">"
                        (EChain KElement "d" [])))
           cssSelectorBuilder).
  reflexivity.
Defined.

(** X10 : nested calls of [combine] compose textually, to any depth, when
    no call has a call of [combine] for both operands and every chain
    obeys the validation rules. *)
Theorem nested_combine_one_sided e this :
  one_sided e = true →
  chains_valid e = true →
  ∃ this',
    (s ← eval e; stringify_of s) this
    = (this', Normal (Some (expr_text e))).
Proof.
  intros Ho Hv. destruct (eval_one_sided e Ho Hv this) as (this'&s&He&Hs&_).
  exists this'. by rewrite js_bind_unfold, He.
Qed.

Lemma nested_combine_one_sided_witness :
  ∃ this',
    (s ← eval (ECombine
                 (ECombine (EChain KElement "table" [(KId, "data")]) "~"
                           (EChain KElement "tr" []))
                 "+"
                 (EChain KElement "td" [(KClass, "x")]));
     stringify_of s) cssSelectorBuilder
    = (this', Normal (Some "table#data ~ tr + td.x")).
Proof.
  apply (nested_combine_one_sided
           (ECombine
              (ECombine (EChain KElement "table" [(KId, "data")]) "~"
                        (EChain KElement "tr" []))
              "+"
              (EChain KElement "td" [(KClass, "x")]))
           cssSelectorBuilder); reflexivity.
Defined.



(** X12 : once the facade holds a text it holds one for good : no
    expression, accepted or throwing, leaves its field unassigned, so that
    [stringify()] on the facade returns [undefined] only before the first
    call of [combine]. *)
Theorem facade_res_stays_assigned e : ∀ this,
  is_Some (facade_res this) →
  is_Some (facade_res (eval e this).1).
Proof.
  induction e as [k value rest|e1 IH1 combinator e2 IH2]; intros this Hs.
  - rewrite eval_chain_unfold. by destruct (chain rest _) as [b [[]|err]].
  - rewrite eval_combine. specialize (IH1 this Hs).
    destruct (eval e1 this) as [this1 [s1|err]]; [|exact IH1].
    specialize (IH2 this1 IH1).
    destruct (eval e2 this1) as [this2 [s2|err]]; [|exact IH2].
    destruct (combine_text s1 combinator s2 this2) as [-> _]. by eexists.
Qed.

Lemma facade_res_stays_assigned_witness :
  let this := {| facade_res := Some "a + b" |} in
  is_Some (facade_res
             (eval (EChain KClass "c" [(KId, "x")]) this).1).
Proof.
  intros this.
  apply (facade_res_stays_assigned (EChain KClass "c" [(KId, "x")]) this).
  by eexists.
Defined.

(** * Continuing a builder *)

Lemma rendered_calls_app calls1 calls2 :
  rendered_calls (calls1 ++ calls2)
  = rendered_calls calls1 +:+ rendered_calls calls2.
Proof. unfold rendered_calls. by rewrite fmap_app, concat_all_app. Qed.

Lemma chain_reachable calls : ∀ done_calls this this',
  reachable done_calls this →
  chain calls this = (this', Normal ()) →
  reachable (done_calls ++ calls) this'.
Proof.
  induction calls as [|[k value] calls IH]; intros done_calls this this' Hr.
  - intros [= <-]. by rewrite app_nil_r.
  - rewrite chain_cons.
    destruct (fragment k value this) as [this1 [[]|e]] eqn:Hf; [|discriminate].
    intros Hch. rewrite cons_middle, app_assoc.
    apply (IH _ this1); [|exact Hch].
    by apply (reachable_fragment _ this).
Qed.

(** X13 : a builder kept from earlier calls can be continued : when the
    kinds appended so far followed by the kinds of the new calls obey the
    validation rules, the new calls are all accepted and the text grows by
    their rendered forms, in order. *)
Theorem chain_continues done_calls calls this :
  reachable done_calls this →
  valid_kinds (done_calls.*1 ++ calls.*1) = true →
  ∃ this',
    chain calls this = (this', Normal ())
    ∧ reachable (done_calls ++ calls) this'
    ∧ res this' = res this +:+ rendered_calls calls.
Proof.
  intros Hr Hv. pose proof (reachable_inv _ _ Hr) as Hinv.
  destruct (chain_valid calls done_calls this Hinv Hv) as (this'&Hch&Hinv').
  exists this'. split; [exact Hch|].
  split; [by apply (chain_reachable calls done_calls this)|].
  destruct Hinv as (_&_&_&_&Ht). destruct Hinv' as (_&_&_&_&Ht').
  by rewrite Ht', Ht, rendered_calls_app.
Qed.

Lemma chain_continues_witness :
  let this := (fragment KElement "div" new_BuilderHelper).1 in
  ∃ this',
    chain [(KId, "main"); (KClass, "c")] this = (this', Normal ())
    ∧ reachable ([(KElement, "div")] ++ [(KId, "main"); (KClass, "c")]) this'
    ∧ res this' = res this +:+ "#main.c".
Proof.
  intros this.
  apply (chain_continues [(KElement, "div")] [(KId, "main"); (KClass, "c")]
           this); [|reflexivity].
  apply (reachable_fragment [] new_BuilderHelper); [|reflexivity].
  apply reachable_new.
Defined.
